(** * AppleScript runner plugin: the Done-section extractor, the change
      handler and the script composition of [src/main.ts]

    The development embeds the functional core of [AppleScriptPlugin]:
    [extractDoneSection], [runAppleScript] and [handleFileChange].

    - A JavaScript string is the list of its UTF-16 code units.
    - The [for ... of] loop of the extractor is a fold over the lines whose
      body yields a completion ([continue], [break] or normal).
    - The asynchronous methods run in a small monad of the file that threads
      the plugin instance and a log of the observable effects, and that has
      JavaScript's exceptions: what was written before a [throw] stays
      written.  One handler call is run to completion; interleavings of
      several calls at their [await] points are outside the model. *)

From Stdlib Require Import String Ascii NArith List Bool Lia.
From stdpp Require Import base list numbers.
Import ListNotations.

Local Open Scope N_scope.

(** ** JavaScript strings *)

Module JS.

(** A string value: its UTF-16 code units. *)
Abbreviation jsstring := (list N).

(** The code units of an ASCII literal. *)
Definition str (s : string) : jsstring :=
  List.map N_of_ascii (list_ascii_of_string s).
Arguments str s%_string.

(** The double quote, which a literal of this file cannot hold. *)
Definition dquote : jsstring := [34].

(** The line feed, the separator of [split('\n')]. *)
Definition LF : N := 10.

(** ECMAScript [LineTerminator]: LF, CR, LS, PS. *)
Definition isLineTerminator (c : N) : bool :=
  (c =? 10) || (c =? 13) || (c =? 8232) || (c =? 8233).

(** ECMAScript [WhiteSpace]: TAB, VT, FF, SP, NBSP, ZWNBSP and the other
    code points of category Zs. *)
Definition isWhiteSpace (c : N) : bool :=
  (c =? 9) || (c =? 11) || (c =? 12) || (c =? 32) || (c =? 160)
  || (c =? 5760) || ((8192 <=? c) && (c <=? 8202))
  || (c =? 8239) || (c =? 8287) || (c =? 12288) || (c =? 65279).

(** What [String.prototype.trim] strips: white space and line terminators. *)
Definition isTrimmable (c : N) : bool :=
  isWhiteSpace c || isLineTerminator c.

Fixpoint trimStart (s : jsstring) : jsstring :=
  match s with
  | [] => []
  | c :: s' => if isTrimmable c then trimStart s' else s
  end.

Definition trimEnd (s : jsstring) : jsstring :=
  rev (trimStart (rev s)).

(** [s.trim()] *)
Definition trim (s : jsstring) : jsstring := trimEnd (trimStart s).

(** [s.startsWith(p)] *)
Fixpoint startsWith (s p : jsstring) {struct p} : bool :=
  match p, s with
  | [], _ => true
  | _ :: _, [] => false
  | a :: p', b :: s' => (a =? b) && startsWith s' p'
  end.

(** [s.includes(p)]: [p] occurs somewhere in [s]. *)
Fixpoint includes (s p : jsstring) : bool :=
  startsWith s p ||
  match s with
  | [] => false
  | _ :: s' => includes s' p
  end.

(** [s.split('\n')]: never empty, the empty string gives one empty line. *)
Fixpoint split_LF (s : jsstring) : list jsstring :=
  match s with
  | [] => [[]]
  | c :: s' =>
      if c =? LF then [] :: split_LF s'
      else match split_LF s' with
           | l :: ls => (c :: l) :: ls
           | [] => [[c]]
           end
  end.

(** [ls.join('\n')], used to write texts line by line. *)
Fixpoint join_LF (ls : list jsstring) : jsstring :=
  match ls with
  | [] => []
  | [l] => l
  | l :: ls' => l ++ LF :: join_LF ls'
  end.

(** [xs.includes(x)] on an array of strings: some element is the same
    string. *)
Definition array_includes (xs : list jsstring) (x : jsstring) : bool :=
  existsb (fun y => bool_decide (y = x)) xs.

(** *** The regular expression [/\[\[(.*?)\]\]/]

    After the two opening brackets the lazy star first tries the closing
    brackets and only then lets the dot take one more code unit; the dot
    takes no line terminator.  The result is capture group 1. *)
Fixpoint lazy_group (s : jsstring) : option jsstring :=
  if startsWith s (str "]]") then Some []
  else match s with
       | [] => None
       | c :: s' =>
           if isLineTerminator c then None
           else option_map (cons c) (lazy_group s')
       end.

(** One attempt of the pattern, anchored at the start of [s]. *)
Definition match_here (s : jsstring) : option jsstring :=
  if startsWith s (str "[[") then lazy_group (drop 2 s) else None.

(** [s.match(/\[\[(.*?)\]\]/)]: the attempts go from left to right and the
    first one that succeeds wins; [None] is [null], [Some g] a match whose
    group 1 is [g]. *)
Fixpoint match_wikilink (s : jsstring) : option jsstring :=
  match match_here s with
  | Some g => Some g
  | None =>
      match s with
      | [] => None
      | _ :: s' => match_wikilink s'
      end
  end.

End JS.
Import JS.

(** ** Section extractor *)

(** [{title: string}] *)
Record TaskRecord := { title : jsstring }.

(** The literal the extractor compares trimmed lines with. *)
Definition DONE_MARKER : jsstring := str "## Done".

(** The prefix that ends the section. *)
Definition HEADING_PREFIX : jsstring := str "## ".

(** The two locals of [extractDoneSection] that the loop updates. *)
Record LoopState := { isDoneSection : bool; tasks : list TaskRecord }.

(** How one run of the loop body ends. *)
Inductive Completion :=
| Normal (s : LoopState)
| Continue (s : LoopState)
| Break (s : LoopState).

Definition state_of (c : Completion) : LoopState :=
  match c with Normal s | Continue s | Break s => s end.

(** The body of [for (const line of lines)]. *)
Definition loop_body (line : jsstring) (s : LoopState) : Completion :=
  if bool_decide (trim line = DONE_MARKER) then
    Continue {| isDoneSection := true; tasks := tasks s |}
  else if isDoneSection s && startsWith line HEADING_PREFIX then
    Break s
  else if isDoneSection s && includes line (str "[[") then
    match match_wikilink line with
    | Some g =>
        Normal {| isDoneSection := isDoneSection s;
                  tasks := tasks s ++ [ {| title := trim g |} ] |}
    | None => Normal s
    end
  else Normal s.

(** The loop: [break] leaves it, the other completions go on with the next
    line. *)
Fixpoint for_of (lines : list jsstring) (s : LoopState) : Completion :=
  match lines with
  | [] => Normal s
  | line :: rest =>
      match loop_body line s with
      | Break s' => Break s'
      | Normal s' | Continue s' => for_of rest s'
      end
  end.

Definition init_state : LoopState := {| isDoneSection := false; tasks := [] |}.

Definition extractDoneSection (content : jsstring) : list TaskRecord :=
  let lines := split_LF content in
  tasks (state_of (for_of lines init_state)).

(** What a line inside the section adds: the record of its first wiki-link,
    if it has one. *)
Definition line_task (line : jsstring) : option TaskRecord :=
  if includes line (str "[[") then
    option_map (fun g => {| title := trim g |}) (match_wikilink line)
  else None.


(** ** Effects of the plugin's asynchronous methods *)

(** [{title: string, content: string}], the optional argument of
    [runAppleScript]. *)
Module EventData.
Record t := { title : jsstring; content : jsstring }.
End EventData.

(** [AppleScriptPluginSettings] *)
Record AppleScriptPluginSettings := {
  defaultScript : jsstring;
  enableDoneHeadingTrigger : bool;
  targetFiles : list jsstring;
  calendarName : jsstring
}.

Definition DEFAULT_SETTINGS : AppleScriptPluginSettings :=
  {| defaultScript := str "";
     enableDoneHeadingTrigger := true;
     targetFiles := [];
     calendarName := str "Logs" |}.

(** The part of a [TFile] the plugin looks at. *)
Record TFile := { path : jsstring }.

(** The mutable fields of the plugin instance. *)
Record Plugin := {
  settings : AppleScriptPluginSettings;
  lastDoneContent : list TaskRecord
}.


(** A thrown value: a rejection of a host call, or the [TypeError] of a
    property read on [undefined]. *)
Inductive Thrown :=
| HostError (msg : jsstring)
| TypeError (msg : jsstring).

(** The collaborators: [this.app.vault.read] and the promisified [exec].
    Each either resolves to a string or rejects. *)
Record Host := {
  vault_read : TFile -> Thrown + jsstring;
  execAsync : jsstring -> Thrown + jsstring
}.

(** What a run leaves behind, in order: the host calls, the calls of
    [runAppleScript] with their arguments, and the console output. *)
Inductive Effect :=
| VaultRead (file : TFile)
| Invoke (script : jsstring) (eventData : option EventData.t)
| Exec (command : jsstring)
| ConsoleError (label : jsstring) (error : Thrown).

(** A method body: from the host and the instance to a completion (thrown
    or returned), the instance afterwards and the effects. *)
Definition M (A : Type) : Type :=
  Host -> Plugin -> (Thrown + A) * Plugin * list Effect.

Definition ret {A} (a : A) : M A := fun _ p => (inr a, p, []).

Definition bind {A B} (m : M A) (k : A -> M B) : M B :=
  fun h p =>
    match m h p with
    | (inl e, p', l) => (inl e, p', l)
    | (inr a, p', l) =>
        match k a h p' with
        | (r, p'', l') => (r, p'', l ++ l')
        end
    end.

Definition throw {A} (e : Thrown) : M A := fun _ p => (inl e, p, []).

(** [try { body } catch (error) { handler }] *)
Definition try_catch {A} (body : M A) (handler : Thrown -> M A) : M A :=
  fun h p =>
    match body h p with
    | (inl e, p', l) =>
        match handler e h p' with
        | (r, p'', l') => (r, p'', l ++ l')
        end
    | done => done
    end.

Definition emit (e : Effect) : M unit := fun _ p => (inr tt, p, [e]).

Definition get_settings : M AppleScriptPluginSettings :=
  fun _ p => (inr (settings p), p, []).

Definition get_lastDoneContent : M (list TaskRecord) :=
  fun _ p => (inr (lastDoneContent p), p, []).

Definition set_lastDoneContent (d : list TaskRecord) : M unit :=
  fun _ p => (inr tt, {| settings := settings p; lastDoneContent := d |}, []).

(** [await this.app.vault.read(file)] *)
Definition await_read (file : TFile) : M jsstring :=
  fun h p => (vault_read h file, p, [VaultRead file]).

(** [await execAsync(command)], resolved to its [stdout]. *)
Definition await_exec (command : jsstring) : M jsstring :=
  fun h p => (execAsync h command, p, [Exec command]).

Definition console_error (label : jsstring) (error : Thrown) : M unit :=
  emit (ConsoleError label error).

Declare Scope plugin_scope.
Delimit Scope plugin_scope with plugin.
Notation "'let*' x ':=' m 'in' k" := (bind m (fun x => k))
  (at level 10, x name, m at level 100, k at level 200) : plugin_scope.
Notation "'do' m 'then' k" := (bind m (fun _ => k))
  (at level 10, m at level 100, k at level 200) : plugin_scope.
Local Open Scope plugin_scope.

Definition outcome {A} (r : (Thrown + A) * Plugin * list Effect) : Thrown + A :=
  fst (fst r).
Definition plugin_after {A} (r : (Thrown + A) * Plugin * list Effect) : Plugin :=
  snd (fst r).
Definition effects {A} (r : (Thrown + A) * Plugin * list Effect) : list Effect :=
  snd r.

(** ** External action invocation *)

(** A template literal: its fixed chunks and its substitutions, put together
    as they stand. *)
Inductive Chunk :=
| Lit (s : string)
| Quote
| Newline
| Subst (v : jsstring).

Definition chunk_text (c : Chunk) : jsstring :=
  match c with
  | Lit s => str s
  | Quote => dquote
  | Newline => [LF]
  | Subst v => v
  end.

Definition template (cs : list Chunk) : jsstring :=
  concat (List.map chunk_text cs).

(** The first statement of [runAppleScript]: the script that is handed on. *)
Definition composeScript (st : AppleScriptPluginSettings) (script : jsstring)
    (eventData : option EventData.t) : jsstring :=
  match eventData with
  | Some d =>
      let calendarData :=
        template [Lit "{calendarName:"; Quote; Subst (calendarName st); Quote;
                  Lit ", summary:"; Quote; Subst (EventData.title d); Quote;
                  Lit ", description:"; Quote; Subst (EventData.content d); Quote;
                  Lit "}"] in
      template [Lit "set input to "; Subst calendarData; Newline; Subst script]
  | None => script
  end.

(** The command line given to [exec]. *)
Definition osascript_command (script : jsstring) : jsstring :=
  template [Lit "osascript -e '"; Subst script; Lit "'"].

Definition runAppleScript (script : jsstring) (eventData : option EventData.t)
  : M jsstring :=
  do emit (Invoke script eventData) then
  let* st := get_settings in
  let script := composeScript st script eventData in
  try_catch
    (let* stdout := await_exec (osascript_command script) in
     ret stdout)
    (fun error =>
       do console_error (str "Error executing AppleScript:") error then
       throw error).

(** ** Change detector *)

(** [doneData[doneData.length - 1]]; [None] is [undefined]. *)
Definition last_element (doneData : list TaskRecord) : option TaskRecord :=
  doneData !! (length doneData - 1)%nat.

Definition handleFileChange (file : TFile) : M unit :=
  let* st := get_settings in
  if negb (array_includes (targetFiles st) (path file)) then ret tt
  else
    try_catch
      (let* content := await_read file in
       let doneData := extractDoneSection content in
       (* [if (doneData)]: an array is truthy, the branch is always taken *)
       let* last := get_lastDoneContent in
       do (if (length last <? length doneData)%nat then
             match last_element doneData with
             | Some latestDone =>
                 let* st := get_settings in
                 do runAppleScript (defaultScript st)
                      (Some {| EventData.title := title latestDone;
                               EventData.content := title latestDone |})
                 then ret tt
             | None =>
                 throw (TypeError (str "Cannot read properties of undefined"))
             end
           else ret tt)
       then set_lastDoneContent doneData)
      (fun error =>
         console_error (str "Error processing file change:") error).

(** The callback registered for the vault's [modify] event. *)
Definition on_modify (file : TFile) : M unit :=
  let* st := get_settings in
  if enableDoneHeadingTrigger st then handleFileChange file else ret tt.

(** The callback of the command [run-applescript]. *)
Definition run_command : M unit :=
  let* st := get_settings in
  do runAppleScript (defaultScript st) None then
  ret tt.

(** The dispatches of a run: the calls of [runAppleScript] that carry event
    data. *)
Definition dispatch_of (e : Effect) : option EventData.t :=
  match e with
  | Invoke _ (Some d) => Some d
  | _ => None
  end.

Definition dispatches (l : list Effect) : list EventData.t :=
  omap dispatch_of l.

Definition exec_of (e : Effect) : option jsstring :=
  match e with
  | Exec c => Some c
  | _ => None
  end.

(** The commands handed to the operating system during a run. *)
Definition executed (l : list Effect) : list jsstring := omap exec_of l.

Definition read_of (e : Effect) : option TFile :=
  match e with
  | VaultRead f => Some f
  | _ => None
  end.

(** The files read during a run. *)
Definition reads (l : list Effect) : list TFile := omap read_of l.

(** ** Settings: loading, saving and the handlers of the settings tab *)

(** What [loadData] resolves to, when it is an object: the keys of the
    settings that the stored file holds, each with its value.  Keys that the
    plugin never reads are left out. *)
Record StoredData := {
  stored_defaultScript : option jsstring;
  stored_enableDoneHeadingTrigger : option bool;
  stored_targetFiles : option (list jsstring);
  stored_calendarName : option jsstring
}.



(** The object that [saveSettings] hands to [saveData]: the settings, with
    all their keys. *)
Definition saveSettings (p : Plugin) : StoredData :=
  {| stored_defaultScript := Some (defaultScript (settings p));
     stored_enableDoneHeadingTrigger :=
       Some (enableDoneHeadingTrigger (settings p));
     stored_targetFiles := Some (targetFiles (settings p));
     stored_calendarName := Some (calendarName (settings p)) |}.

(** [this.plugin.settings.targetFiles = ...] and the like: the instance with
    one field of its settings replaced. *)
Definition with_targetFiles (xs : list jsstring) (p : Plugin) : Plugin :=
  {| settings :=
       {| defaultScript := defaultScript (settings p);
          enableDoneHeadingTrigger := enableDoneHeadingTrigger (settings p);
          targetFiles := xs;
          calendarName := calendarName (settings p) |};
     lastDoneContent := lastDoneContent p |}.

(** [xs[index] = value]: inside the array the element is replaced, at its
    end the array grows by one; further out JavaScript leaves holes, which a
    list of strings does not have: [None]. *)
Definition array_set (xs : list jsstring) (index : nat) (value : jsstring)
  : option (list jsstring) :=
  if (index <? length xs)%nat then Some (<[index := value]> xs)
  else if (index =? length xs)%nat then Some (xs ++ [value])
  else None.

(** [xs.splice(index, 1)]: the element at [index] is taken out; beyond the
    end nothing is. *)
Definition array_splice1 (xs : list jsstring) (index : nat) : list jsstring :=
  take index xs ++ drop (S index) xs.

(** A handler of the settings tab changes the instance and then calls
    [saveSettings]: the result is the instance afterwards and the objects
    handed to [saveData], in order.  The redrawing of the tab is left out. *)
Definition Handler : Type := Plugin -> Plugin * list StoredData.

Definition then_save (p : Plugin) : Plugin * list StoredData :=
  (p, [saveSettings p]).



(** The text field of target file [index]. *)
Definition onChange_targetFile (index : nat) (value : jsstring) (p : Plugin)
  : option (Plugin * list StoredData) :=
  match array_set (targetFiles (settings p)) index value with
  | Some xs => Some (then_save (with_targetFiles xs p))
  | None => None
  end.

(** The Remove button of target file [index]. *)
Definition onClick_remove (index : nat) : Handler :=
  fun p =>
    then_save (with_targetFiles (array_splice1 (targetFiles (settings p)) index) p).

(** The callback given to the file selector; [None] is [null]. *)
Definition onChoose_file (selectedFile : option TFile) : Handler :=
  fun p =>
    match selectedFile with
    | Some f =>
        then_save (with_targetFiles (targetFiles (settings p) ++ [path f]) p)
    | None => (p, [])
    end.




(** ** Vocabulary of the statements *)

(** A line that the loop passes over without leaving the section: the marker
    again, or anything that is not a heading of the same level. *)
Definition in_section (line : jsstring) : Prop :=
  trim line = DONE_MARKER \/ startsWith line HEADING_PREFIX = false.

(** A heading that closes the section. *)
Definition closing_heading (line : jsstring) : Prop :=
  startsWith line HEADING_PREFIX = true /\ trim line <> DONE_MARKER.

(** What may follow the section: nothing, or a closing heading and the rest
    of the document. *)
Definition section_end (post : list jsstring) : Prop :=
  match post with
  | [] => True
  | h :: _ => closing_heading h
  end.

(** A line without a wiki-link opening. *)
Definition linkless (line : jsstring) : Prop :=
  includes line (str "[[") = false.

(** The scan has read [pre], is inside the section and has not stopped. *)
Definition scanning_inside (pre : list jsstring) (st : LoopState) : Prop :=
  for_of pre init_state = Normal st /\ isDoneSection st = true.

(** A title as the extractor produces it: trimmed, and on one line. *)
Definition clean_title (r : TaskRecord) : Prop :=
  trim (title r) = title r /\
  Forall (fun c => isLineTerminator c = false) (title r).

(** The carriage return. *)
Definition CR : N := 13.

(** The line [l'] is the line [l], with or without a carriage return at its
    end. *)
Definition same_up_to_CR (l l' : jsstring) : Prop :=
  l' = l \/ l' = l ++ [CR].


(** The file is one of the configured target files. *)
Definition monitored (p : Plugin) (file : TFile) : Prop :=
  In (path file) (targetFiles (settings p)).

(** What [handleFileChange] hands to [runAppleScript] for a task. *)
Definition payload_of (task : TaskRecord) : EventData.t :=
  {| EventData.title := title task; EventData.content := title task |}.

(** The command that a dispatch of [d] from the instance [p] executes. *)
Definition dispatch_command (p : Plugin) (d : EventData.t) : jsstring :=
  osascript_command
    (composeScript (settings p) (defaultScript (settings p)) (Some d)).

(** Some command of the run was rejected by the host. *)
Definition action_failed (h : Host) (l : list Effect) : Prop :=
  exists cmd e, In cmd (executed l) /\ execAsync h cmd = inl e.

(** Hosts and instances for the runs on concrete inputs. *)
Definition host_with (text : jsstring) (run : Thrown + jsstring) : Host :=
  {| vault_read := fun _ => inr text; execAsync := fun _ => run |}.

Definition host_unreadable (e : Thrown) : Host :=
  {| vault_read := fun _ => inl e; execAsync := fun _ => inr [] |}.

Definition board : TFile := {| path := str "Board.md" |}.

Definition plugin_watching (seen : list TaskRecord) : Plugin :=
  {| settings :=
       {| defaultScript := str "say input";
          enableDoneHeadingTrigger := true;
          targetFiles := [str "Board.md"];
          calendarName := str "Logs" |};
     lastDoneContent := seen |}.

(** * Properties *)

(** ** Runs on concrete inputs *)

Example ex_abc :
  extractDoneSection
    (join_LF [str "# Board"; str "## Todo"; str "- [ ] [[X]]"; str "## Done";
              str "- [x] [[A]]"; str ""; str "- [x] [[ B ]] [[Z]]"; str "[[C]]";
              str "## Other"; str "[[D]]"])
  = [ {| title := str "A" |}; {| title := str "B" |}; {| title := str "C" |} ].
Proof. vm_compute. reflexivity. Qed.

(** A carriage return before the line feed is trimmed away from the marker
    line and stays outside the brackets of a link line. *)
Example ex_crlf :
  extractDoneSection
    (str "## Done" ++ [13; 10] ++ str "- [[ Pay rent ]]" ++ [13; 10])
  = [ {| title := str "Pay rent" |} ].
Proof. vm_compute. reflexivity. Qed.

(** A link whose brackets close on no line of their own is not matched; the
    search goes on to the right. *)
Example ex_unclosed :
  match_wikilink (str "[[A" ++ [13] ++ str "]] [[B]]") = Some (str "B").
Proof. vm_compute. reflexivity. Qed.

(** Two changes in a row: the first one dispatches the new task, the second
    one, with the text unchanged, dispatches nothing. *)
Example ex_resave :
  let text := join_LF [str "## Done"; str "[[A]]"] in
  let h := host_with text (inr []) in
  let r1 := handleFileChange board h (plugin_watching []) in
  let r2 := handleFileChange board h (plugin_after r1) in
  dispatches (effects r1) =
    [ {| EventData.title := str "A"; EventData.content := str "A" |} ] /\
  dispatches (effects r2) = [] /\
  lastDoneContent (plugin_after r2) = [ {| title := str "A" |} ].
Proof. vm_compute. repeat split; reflexivity. Qed.

(** ** Strings *)

Section StringFacts.
Implicit Types (s p t : jsstring) (c : N).

Lemma startsWith_head s c p :
  startsWith s (c :: p) = true -> exists s', s = c :: s'.
Proof.
  destruct s as [|b s']; simpl; [discriminate|].
  intros H. apply andb_true_iff in H as [H _].
  apply N.eqb_eq in H. subst. eauto.
Qed.

Lemma includes_head s c p : includes s (c :: p) = true -> In c s.
Proof.
  induction s as [|b s IH]; intros H.
  - simpl in H. discriminate.
  - cbn [includes] in H. apply orb_true_iff in H as [H|H].
    + apply startsWith_head in H as [s' Hs]. injection Hs as -> _. now left.
    + right. auto.
Qed.

Lemma trimStart_keeps s c :
  In c s -> isTrimmable c = false -> In c (trimStart s).
Proof.
  induction s as [|b s IH]; simpl; [tauto|].
  intros [->|Hin] Hc.
  - rewrite Hc. now left.
  - destruct (isTrimmable b); [auto | now right].
Qed.

Lemma trim_keeps s c : In c s -> isTrimmable c = false -> In c (trim s).
Proof.
  intros Hin Hc. unfold trim, trimEnd.
  apply -> in_rev. apply trimStart_keeps; [|assumption].
  apply -> in_rev. now apply trimStart_keeps.
Qed.

(** A line that trims to the marker holds no opening bracket. *)
Lemma marker_line_no_link s :
  trim s = DONE_MARKER -> includes s (str "[[") = false.
Proof.
  intros Ht. destruct (includes s (str "[[")) eqn:Hi; [|reflexivity].
  apply includes_head in Hi.
  apply (trim_keeps s 91) in Hi; [|reflexivity].
  rewrite Ht in Hi. vm_compute in Hi.
  repeat (destruct Hi as [Hi|Hi]; [discriminate|]). destruct Hi.
Qed.



Lemma includes_app_r p s q : includes s q = true -> includes (p ++ s) q = true.
Proof. induction p; simpl; intros H; [assumption|]. rewrite IHp by assumption. apply orb_true_r. Qed.

Lemma split_LF_line s : Forall (fun c => c <> LF) s -> split_LF s = [s].
Proof.
  induction 1 as [|c s Hc _ IH]; [reflexivity|].
  simpl. rewrite (proj2 (N.eqb_neq c LF) Hc), IH. reflexivity.
Qed.

Lemma split_LF_app s t :
  Forall (fun c => c <> LF) s -> split_LF (s ++ LF :: t) = s :: split_LF t.
Proof.
  induction 1 as [|c s Hc _ IH]; [reflexivity|].
  simpl. rewrite (proj2 (N.eqb_neq c LF) Hc), IH. reflexivity.
Qed.

(** Splitting a text written line by line gives the lines back. *)
Lemma split_join_LF (ls : list jsstring) :
  ls <> [] -> Forall (Forall (fun c => c <> LF)) ls ->
  split_LF (join_LF ls) = ls.
Proof.
  intros Hne H. induction H as [|l ls Hl Hls IH]; [contradiction|].
  destruct ls as [|l2 ls].
  - simpl. now apply split_LF_line.
  - change (join_LF (l :: l2 :: ls)) with (l ++ LF :: join_LF (l2 :: ls)).
    rewrite split_LF_app by assumption. f_equal. now apply IH.
Qed.

End StringFacts.

(** ** The loop of the extractor *)

Section Loop.
Implicit Types (s st : LoopState) (line : jsstring) (lines : list jsstring).

Lemma inside_eta s :
  isDoneSection s = true -> s = {| isDoneSection := true; tasks := tasks s |}.
Proof. destruct s; simpl; intros ->; reflexivity. Qed.

Lemma for_of_app pre lines s s1 :
  for_of pre s = Normal s1 -> for_of (pre ++ lines) s = for_of lines s1.
Proof.
  revert s. induction pre as [|l pre IH]; intros s H.
  - simpl in H. injection H as ->. reflexivity.
  - simpl in *. destruct (loop_body l s); try discriminate; auto.
Qed.

Lemma loop_body_marker line s :
  trim line = DONE_MARKER ->
  loop_body line s = Continue {| isDoneSection := true; tasks := tasks s |}.
Proof. intros H. unfold loop_body. rewrite bool_decide_eq_true_2; auto. Qed.

Lemma loop_body_outside line s :
  isDoneSection s = false -> trim line <> DONE_MARKER ->
  loop_body line s = Normal s.
Proof.
  intros Hs H. unfold loop_body.
  rewrite bool_decide_eq_false_2, Hs by assumption. reflexivity.
Qed.

Lemma loop_body_heading line s :
  isDoneSection s = true -> closing_heading line ->
  loop_body line s = Break s.
Proof.
  intros Hs [Hh Hm]. unfold loop_body.
  rewrite bool_decide_eq_false_2, Hs, Hh by assumption. reflexivity.
Qed.

(** Inside the section a line that is no closing heading adds its task, if
    any, and the loop goes on. *)
Lemma loop_body_inside line s :
  isDoneSection s = true -> in_section line ->
  exists c, loop_body line s = c /\ c <> Break (state_of c) /\
    state_of c = {| isDoneSection := true;
                    tasks := tasks s ++ option_list (line_task line) |}.
Proof.
  intros Hs Hin. eexists; split; [reflexivity|].
  unfold loop_body, line_task.
  destruct (bool_decide (trim line = DONE_MARKER)) eqn:Hm.
  - apply bool_decide_eq_true_1 in Hm.
    rewrite (marker_line_no_link _ Hm). simpl. rewrite app_nil_r.
    split; [discriminate | reflexivity].
  - apply bool_decide_eq_false_1 in Hm.
    destruct Hin as [Hin|Hin]; [contradiction|].
    rewrite Hs, Hin. simpl.
    destruct (includes line (str "[[")).
    + destruct (match_wikilink line); simpl.
      * split; [discriminate | reflexivity].
      * rewrite app_nil_r. split; [discriminate | now apply inside_eta].
    + simpl. rewrite app_nil_r. split; [discriminate | now apply inside_eta].
Qed.

Lemma for_of_outside lines s :
  isDoneSection s = false ->
  Forall (fun l => trim l <> DONE_MARKER) lines ->
  for_of lines s = Normal s.
Proof.
  intros Hs H. induction H as [|l lines Hl _ IH]; [reflexivity|].
  simpl. rewrite loop_body_outside by assumption. exact IH.
Qed.

Lemma omap_line_task_cons line body :
  omap line_task (line :: body) = option_list (line_task line) ++ omap line_task body.
Proof. simpl. destruct (line_task line); reflexivity. Qed.

Lemma for_of_inside body s :
  isDoneSection s = true -> Forall in_section body ->
  for_of body s =
    Normal {| isDoneSection := true; tasks := tasks s ++ omap line_task body |}.
Proof.
  intros Hs H. revert s Hs.
  induction H as [|l body Hl _ IH]; intros s Hs.
  - simpl. rewrite app_nil_r. f_equal. now apply inside_eta.
  - destruct (loop_body_inside l s Hs Hl) as (c & Hc & Hnb & Hst).
    rewrite omap_line_task_cons, app_assoc.
    cbn [for_of]. rewrite Hc.
    destruct c as [s'|s'|s']; simpl in Hst, Hnb; [| |contradiction];
      subst s'; rewrite IH by reflexivity; reflexivity.
Qed.

Lemma omap_linkless gap : Forall linkless gap -> omap line_task gap = [].
Proof.
  induction 1 as [|l gap Hl _ IH]; [reflexivity|].
  simpl. unfold line_task at 1. rewrite Hl. exact IH.
Qed.

End Loop.

(** ** Section extractor: the claims *)

(** C7. A text none of whose lines trims to [## Done] gives the empty
    sequence: the loop runs through all the lines, never enters the section
    and ends normally with nothing collected.  The comparison is with the
    whole trimmed line, code unit by code unit. *)
Theorem extract_without_marker (text : jsstring) :
  Forall (fun l => trim l <> DONE_MARKER) (split_LF text) ->
  for_of (split_LF text) init_state = Normal init_state /\
  extractDoneSection text = [].
Proof.
  intros H. unfold extractDoneSection. cbn zeta.
  rewrite for_of_outside by (reflexivity || assumption).
  split; reflexivity.
Qed.

Lemma extract_without_marker_witness :
  extractDoneSection
    (join_LF [str "# Board"; str "## done"; str "[[A]]"; str "## Done list";
              str "[[B]]"; str "###  ## Done"]) = [].
Proof.
  apply extract_without_marker. vm_compute.
  repeat (constructor; [discriminate|]). constructor.
Defined.

(** C2, as the code has it.  Once the scan is inside the section, the first
    line that starts with [## ] and does not itself trim to [## Done] ends
    the loop: the result is what was collected before that line, whatever
    that line and the lines after it hold. *)
Theorem extract_stops_at_closing_heading
    (text : jsstring) (pre : list jsstring) (h : jsstring)
    (post : list jsstring) (st : LoopState) :
  split_LF text = pre ++ h :: post ->
  scanning_inside pre st ->
  startsWith h HEADING_PREFIX = true ->
  trim h <> DONE_MARKER ->
  for_of (split_LF text) init_state = Break st /\
  extractDoneSection text = tasks st.
Proof.
  intros Hsplit [Hpre Hin] Hh Hm.
  assert (Hrun : for_of (split_LF text) init_state = Break st).
  { rewrite Hsplit, (for_of_app _ _ _ _ Hpre). cbn [for_of].
    rewrite loop_body_heading by (assumption || split; assumption).
    reflexivity. }
  split; [exact Hrun|]. unfold extractDoneSection. cbn zeta.
  rewrite Hrun. reflexivity.
Qed.

Lemma extract_stops_at_closing_heading_witness :
  extractDoneSection
    (join_LF [str "## Done"; str "[[A]]"; str "## Other [[X]]"; str "[[B]]"])
  = [ {| title := str "A" |} ].
Proof.
  refine (proj2 (extract_stops_at_closing_heading _
                   [str "## Done"; str "[[A]]"] (str "## Other [[X]]")
                   [str "[[B]]"]
                   {| isDoneSection := true; tasks := [ {| title := str "A" |} ] |}
                   _ _ _ _)).
  - vm_compute. reflexivity.
  - split; vm_compute; reflexivity.
  - vm_compute. reflexivity.
  - vm_compute. discriminate.
Defined.

(** C2, as the claim words it: any line starting with [## ] would end the
    scan.  A second [## Done] line starts with [## ], yet the loop passes
    over it and collects the link that follows. *)
Lemma repeated_marker_does_not_stop :
  let text := join_LF [str "## Done"; str "## Done"; str "[[B]]"] in
  let pre := [str "## Done"] in
  let h := str "## Done" in
  let post := [str "[[B]]"] in
  let st := {| isDoneSection := true; tasks := [] |} in
  split_LF text = pre ++ h :: post /\
  scanning_inside pre st /\
  startsWith h HEADING_PREFIX = true /\
  extractDoneSection text = [ {| title := str "B" |} ] /\
  extractDoneSection text <> tasks st.
Proof.
  cbv zeta. repeat split; try (vm_compute; reflexivity).
  vm_compute. discriminate.
Qed.

(** C5. The extractor keeps document order: the result is the sequence of
    the tasks of the section's lines, taken line by line from top to
    bottom.  In particular a section whose wiki-link lines are [[[A]]],
    [[[B]]], [[[C]]] in that order, with any number of link-free lines
    around them, gives A, B, C. *)
Theorem extract_preserves_order
    (text : jsstring) (pre : list jsstring) (m : jsstring)
    (body post : list jsstring) :
  split_LF text = pre ++ m :: body ++ post ->
  Forall (fun l => trim l <> DONE_MARKER) pre ->
  trim m = DONE_MARKER ->
  Forall in_section body ->
  section_end post ->
  extractDoneSection text = omap line_task body /\
  forall g0 g1 g2 g3 : list jsstring,
    body = g0 ++ str "[[A]]" :: g1 ++ str "[[B]]" :: g2 ++ str "[[C]]" :: g3 ->
    Forall linkless g0 -> Forall linkless g1 ->
    Forall linkless g2 -> Forall linkless g3 ->
    extractDoneSection text =
      [ {| title := str "A" |}; {| title := str "B" |}; {| title := str "C" |} ].
Proof.
  intros Hsplit Hpre Hm Hbody Hpost.
  assert (Hgen : extractDoneSection text = omap line_task body).
  { unfold extractDoneSection. cbn zeta. rewrite Hsplit.
    rewrite (for_of_app pre _ init_state init_state)
      by (apply for_of_outside; [reflexivity | assumption]).
    cbn [for_of]. rewrite (loop_body_marker _ _ Hm).
    change (tasks init_state) with (@nil TaskRecord).
    rewrite (for_of_app body post _ _
               (for_of_inside body {| isDoneSection := true; tasks := [] |}
                  eq_refl Hbody)).
    destruct post as [|h post]; [reflexivity|].
    cbn [for_of]. rewrite loop_body_heading by (reflexivity || exact Hpost).
    reflexivity. }
  split; [exact Hgen|].
  intros g0 g1 g2 g3 -> H0 H1 H2 H3. rewrite Hgen.
  rewrite omap_app, omap_line_task_cons, omap_app, omap_line_task_cons,
    omap_app, omap_line_task_cons.
  rewrite !omap_linkless by assumption. reflexivity.
Qed.

Lemma extract_preserves_order_witness :
  extractDoneSection
    (join_LF [str "## Todo"; str "[[X]]"; str "## Done"; str "";
              str "[[A]]"; str "[[B]]"; str "- note"; str "[[C]]";
              str "## Archive"; str "[[D]]"])
  = [ {| title := str "A" |}; {| title := str "B" |}; {| title := str "C" |} ].
Proof.
  refine (proj2 (extract_preserves_order _
                   [str "## Todo"; str "[[X]]"] (str "## Done")
                   [str ""; str "[[A]]"; str "[[B]]"; str "- note"; str "[[C]]"]
                   [str "## Archive"; str "[[D]]"] _ _ _ _ _)
                [str ""] [] [str "- note"] [] _ _ _ _ _).
  - vm_compute. reflexivity.
  - repeat (constructor; [vm_compute; discriminate|]). constructor.
  - vm_compute. reflexivity.
  - repeat (constructor; [right; vm_compute; reflexivity|]). constructor.
  - split; [vm_compute; reflexivity | vm_compute; discriminate].
  - reflexivity.
  - repeat (constructor; [vm_compute; reflexivity|]). constructor.
  - constructor.
  - repeat (constructor; [vm_compute; reflexivity|]). constructor.
  - constructor.
Defined.



(** ** Change detector: the runs of the handler *)

Section Handler.
Variables (file : TFile) (h : Host) (p : Plugin).

Lemma array_includes_In (xs : list jsstring) (x : jsstring) :
  array_includes xs x = true <-> In x xs.
Proof.
  unfold array_includes. rewrite existsb_exists. split.
  - intros (y & Hy & Heq). apply bool_decide_eq_true_1 in Heq. now subst.
  - intros Hx. exists x. split; [assumption|]. now apply bool_decide_eq_true_2.
Qed.

Lemma array_includes_monitored :
  monitored p file -> array_includes (targetFiles (settings p)) (path file) = true.
Proof. apply array_includes_In. Qed.

Lemma array_includes_unmonitored :
  ~ monitored p file ->
  array_includes (targetFiles (settings p)) (path file) = false.
Proof.
  intros H. apply not_true_is_false. intros Hc. apply H.
  now apply array_includes_In.
Qed.

Lemma last_element_growth (doneData : list TaskRecord) (n : nat) :
  (n < length doneData)%nat -> exists latest, last_element doneData = Some latest.
Proof.
  intros Hn. unfold last_element.
  destruct (lookup_lt_is_Some_2 doneData (length doneData - 1)) as [x Hx];
    [lia | eauto].
Qed.

Lemma last_element_last (doneData : list TaskRecord) :
  last_element doneData = list.last doneData.
Proof.
  unfold last_element. rewrite last_lookup. f_equal. lia.
Qed.

(** The file is not a target: nothing happens. *)
Lemma run_unmonitored :
  ~ monitored p file -> handleFileChange file h p = (inr tt, p, []).
Proof.
  intros H. unfold handleFileChange, bind, get_settings.
  cbv beta. rewrite array_includes_unmonitored by assumption. reflexivity.
Qed.

(** The read is rejected: the error is logged and the run ends. *)
Lemma run_read_failed (e : Thrown) :
  monitored p file -> vault_read h file = inl e ->
  handleFileChange file h p =
    (inr tt, p,
     [VaultRead file; ConsoleError (str "Error processing file change:") e]).
Proof.
  intros Hm Hr. unfold handleFileChange, bind, get_settings.
  cbv beta. rewrite array_includes_monitored by assumption.
  cbn [negb]. cbv beta iota.
  unfold try_catch, await_read. cbv beta. rewrite Hr. reflexivity.
Qed.

(** The read succeeds and the sequence did not grow. *)
Lemma run_no_growth (text : jsstring) :
  monitored p file -> vault_read h file = inr text ->
  (length (extractDoneSection text) <= length (lastDoneContent p))%nat ->
  handleFileChange file h p =
    (inr tt,
     {| settings := settings p; lastDoneContent := extractDoneSection text |},
     [VaultRead file]).
Proof.
  intros Hm Hr Hle. unfold handleFileChange, bind, get_settings.
  cbv beta. rewrite array_includes_monitored by assumption.
  cbn [negb]. cbv beta iota.
  unfold try_catch, await_read, get_lastDoneContent. cbv beta. rewrite Hr.
  cbn [negb]. cbv beta iota zeta.
  replace (length (lastDoneContent p) <? length (extractDoneSection text))%nat
    with false by (symmetry; apply Nat.ltb_ge; exact Hle).
  reflexivity.
Qed.

(** The read succeeds and the sequence grew: the last task is handed to
    [runAppleScript]; the assignment to [lastDoneContent] is reached only
    when the command resolves. *)
Lemma run_growth (text : jsstring) (latest : TaskRecord) :
  monitored p file -> vault_read h file = inr text ->
  (length (lastDoneContent p) < length (extractDoneSection text))%nat ->
  last_element (extractDoneSection text) = Some latest ->
  handleFileChange file h p =
    let call := Invoke (defaultScript (settings p)) (Some (payload_of latest)) in
    let cmd := dispatch_command p (payload_of latest) in
    match execAsync h cmd with
    | inr _ =>
        (inr tt,
         {| settings := settings p; lastDoneContent := extractDoneSection text |},
         [VaultRead file; call; Exec cmd])
    | inl e =>
        (inr tt, p,
         [VaultRead file; call; Exec cmd;
          ConsoleError (str "Error executing AppleScript:") e;
          ConsoleError (str "Error processing file change:") e])
    end.
Proof.
  intros Hm Hr Hlt Hlast. unfold handleFileChange, bind, get_settings.
  cbv beta. rewrite array_includes_monitored by assumption.
  cbn [negb]. cbv beta iota.
  unfold try_catch at 1. unfold await_read, get_lastDoneContent.
  cbv beta. rewrite Hr. cbn [negb]. cbv beta iota zeta.
  replace (length (lastDoneContent p) <? length (extractDoneSection text))%nat
    with true by (symmetry; apply Nat.ltb_lt; exact Hlt).
  rewrite Hlast. unfold runAppleScript, bind, emit, get_settings, try_catch,
    await_exec, console_error, emit, throw, ret, set_lastDoneContent,
    dispatch_command, payload_of.
  destruct (execAsync h _); reflexivity.
Qed.

End Handler.

(** X5. The [modify] callback runs the handler when the trigger is enabled;
    when it is disabled the callback does nothing at all, also for a target
    file: no read, no dispatch, no console output, the instance untouched. *)
Lemma on_modify_enabled (file : TFile) (h : Host) (p : Plugin) :
  on_modify file h p =
    if enableDoneHeadingTrigger (settings p) then handleFileChange file h p
    else (inr tt, p, []).
Proof.
  unfold on_modify, bind, get_settings. cbv beta.
  destruct (enableDoneHeadingTrigger (settings p)).
  - destruct (handleFileChange file h p) as [[r q] l]. reflexivity.
  - reflexivity.
Qed.

(** ** Change detector: the claims *)

(** C1. On a target file whose read succeeds, a sequence longer than the
    stored one causes exactly one dispatch: [runAppleScript] is called once
    with event data, both fields of which are the title of the last element
    of the new sequence, and exactly one command is executed, the one
    composed from that payload.  Nothing is thrown to the caller. *)
Theorem growth_dispatches_last
    (file : TFile) (h : Host) (p : Plugin) (text : jsstring) :
  monitored p file ->
  vault_read h file = inr text ->
  (length (lastDoneContent p) < length (extractDoneSection text))%nat ->
  exists latest : TaskRecord,
    list.last (extractDoneSection text) = Some latest /\
    dispatches (effects (handleFileChange file h p)) =
      [ {| EventData.title := title latest;
           EventData.content := title latest |} ] /\
    executed (effects (handleFileChange file h p)) =
      [ dispatch_command p (payload_of latest) ] /\
    outcome (handleFileChange file h p) = inr tt.
Proof.
  intros Hm Hr Hlt.
  destruct (last_element_growth _ _ Hlt) as [latest Hlast].
  exists latest. rewrite <- last_element_last.
  split; [exact Hlast|].
  rewrite (run_growth file h p text latest Hm Hr Hlt Hlast). cbv zeta.
  destruct (execAsync h _); repeat split; reflexivity.
Qed.

Lemma growth_dispatches_last_witness :
  let text := join_LF [str "## Done"; str "[[A]]"; str "[[B]]"; str "[[C]]"] in
  let h := host_with text (inr []) in
  let p := plugin_watching [ {| title := str "A" |}; {| title := str "B" |} ] in
  exists latest : TaskRecord,
    list.last (extractDoneSection text) = Some latest /\
    dispatches (effects (handleFileChange board h p)) =
      [ {| EventData.title := title latest;
           EventData.content := title latest |} ] /\
    executed (effects (handleFileChange board h p)) =
      [ dispatch_command p (payload_of latest) ] /\
    outcome (handleFileChange board h p) = inr tt.
Proof.
  cbv zeta. apply growth_dispatches_last.
  - left. reflexivity.
  - reflexivity.
  - vm_compute. lia.
Defined.

(** C9. On a target file whose read succeeds, a sequence that is not longer
    than the stored one causes no dispatch and no command, and the stored
    sequence is replaced by the new one; the settings stay as they are. *)
Theorem no_growth_replaces_state
    (file : TFile) (h : Host) (p : Plugin) (text : jsstring) :
  monitored p file ->
  vault_read h file = inr text ->
  (length (extractDoneSection text) <= length (lastDoneContent p))%nat ->
  dispatches (effects (handleFileChange file h p)) = [] /\
  executed (effects (handleFileChange file h p)) = [] /\
  lastDoneContent (plugin_after (handleFileChange file h p)) =
    extractDoneSection text /\
  settings (plugin_after (handleFileChange file h p)) = settings p /\
  outcome (handleFileChange file h p) = inr tt.
Proof.
  intros Hm Hr Hle. rewrite (run_no_growth file h p text Hm Hr Hle).
  repeat split; reflexivity.
Qed.

Lemma no_growth_replaces_state_witness :
  let text := join_LF [str "## Done"; str "[[B]]"; str "[[A]]"] in
  let h := host_with text (inr []) in
  let p := plugin_watching [ {| title := str "A" |}; {| title := str "B" |} ] in
  dispatches (effects (handleFileChange board h p)) = [] /\
  executed (effects (handleFileChange board h p)) = [] /\
  lastDoneContent (plugin_after (handleFileChange board h p)) =
    extractDoneSection text /\
  settings (plugin_after (handleFileChange board h p)) = settings p /\
  outcome (handleFileChange board h p) = inr tt.
Proof.
  cbv zeta. apply no_growth_replaces_state.
  - left. reflexivity.
  - reflexivity.
  - vm_compute. lia.
Defined.

(** C4. On a target file whose read is rejected, the instance is left as it
    was, nothing is dispatched or executed, and the handler returns
    normally: the error goes to the console and no further. *)
Theorem read_failure_is_swallowed
    (file : TFile) (h : Host) (p : Plugin) (e : Thrown) :
  monitored p file ->
  vault_read h file = inl e ->
  plugin_after (handleFileChange file h p) = p /\
  dispatches (effects (handleFileChange file h p)) = [] /\
  executed (effects (handleFileChange file h p)) = [] /\
  outcome (handleFileChange file h p) = inr tt /\
  effects (handleFileChange file h p) =
    [VaultRead file; ConsoleError (str "Error processing file change:") e].
Proof.
  intros Hm Hr. rewrite (run_read_failed file h p e Hm Hr).
  repeat split; reflexivity.
Qed.

Lemma read_failure_is_swallowed_witness :
  let e := HostError (str "ENOENT") in
  let h := host_unreadable e in
  let p := plugin_watching [ {| title := str "A" |} ] in
  plugin_after (handleFileChange board h p) = p /\
  dispatches (effects (handleFileChange board h p)) = [] /\
  executed (effects (handleFileChange board h p)) = [] /\
  outcome (handleFileChange board h p) = inr tt /\
  effects (handleFileChange board h p) =
    [VaultRead board; ConsoleError (str "Error processing file change:") e].
Proof.
  cbv zeta. apply read_failure_is_swallowed.
  - left. reflexivity.
  - reflexivity.
Defined.

(** C10. For a file whose path is none of the configured target paths, the
    handler does nothing at all: no read, no dispatch, no command, no
    console output, no exception, and the instance is unchanged. *)
Theorem unmonitored_file_is_noop (file : TFile) (h : Host) (p : Plugin) :
  ~ In (path file) (targetFiles (settings p)) ->
  handleFileChange file h p = (inr tt, p, []) /\
  reads (effects (handleFileChange file h p)) = [] /\
  dispatches (effects (handleFileChange file h p)) = [] /\
  plugin_after (handleFileChange file h p) = p /\
  outcome (handleFileChange file h p) = inr tt.
Proof.
  intros Hn. rewrite (run_unmonitored file h p Hn). repeat split; reflexivity.
Qed.

Lemma unmonitored_file_is_noop_witness :
  let file := {| path := str "board.md" |} in
  let h := host_with (join_LF [str "## Done"; str "[[A]]"]) (inr []) in
  let p := plugin_watching [] in
  handleFileChange file h p = (inr tt, p, []) /\
  reads (effects (handleFileChange file h p)) = [] /\
  dispatches (effects (handleFileChange file h p)) = [] /\
  plugin_after (handleFileChange file h p) = p /\
  outcome (handleFileChange file h p) = inr tt.
Proof.
  cbv zeta. apply unmonitored_file_is_noop.
  intros [Heq|[]]. vm_compute in Heq. discriminate.
Defined.

(** C3, as the code has it.  On a target file whose read succeeds the
    handler returns normally and leaves the settings alone.  The stored
    sequence is replaced by the new one whenever no command of the run was
    rejected, whether or not a dispatch took place.  When the command of the
    dispatch is rejected, the error is logged twice and caught, and the
    stored sequence stays what it was: the assignment after the awaited call
    is not reached. *)
Theorem state_update_after_parse
    (file : TFile) (h : Host) (p : Plugin) (text : jsstring) :
  monitored p file ->
  vault_read h file = inr text ->
  outcome (handleFileChange file h p) = inr tt /\
  settings (plugin_after (handleFileChange file h p)) = settings p /\
  (~ action_failed h (effects (handleFileChange file h p)) ->
   lastDoneContent (plugin_after (handleFileChange file h p)) =
     extractDoneSection text) /\
  (action_failed h (effects (handleFileChange file h p)) ->
   lastDoneContent (plugin_after (handleFileChange file h p)) =
     lastDoneContent p).
Proof.
  intros Hm Hr.
  destruct (Nat.lt_ge_cases (length (lastDoneContent p))
              (length (extractDoneSection text))) as [Hlt|Hle].
  - destruct (last_element_growth _ _ Hlt) as [latest Hlast].
    rewrite (run_growth file h p text latest Hm Hr Hlt Hlast). cbv zeta.
    destruct (execAsync h (dispatch_command p (payload_of latest))) as [e|out] eqn:He.
    + repeat split; try reflexivity.
      intros Hnf. exfalso. apply Hnf.
      exists (dispatch_command p (payload_of latest)), e.
      split; [left; reflexivity | exact He].
    + repeat split; try reflexivity.
      intros (cmd & e & Hin & Hfail). simpl in Hin.
      destruct Hin as [<-|[]]. rewrite He in Hfail. discriminate.
  - rewrite (run_no_growth file h p text Hm Hr Hle).
    repeat split; try reflexivity.
    intros (cmd & e & Hin & _). destruct Hin.
Qed.

Lemma state_update_after_parse_witness :
  let text := join_LF [str "## Done"; str "[[A]]"] in
  let h := host_with text (inr (str "ok")) in
  let p := plugin_watching [] in
  outcome (handleFileChange board h p) = inr tt /\
  settings (plugin_after (handleFileChange board h p)) = settings p /\
  (~ action_failed h (effects (handleFileChange board h p)) ->
   lastDoneContent (plugin_after (handleFileChange board h p)) =
     extractDoneSection text) /\
  (action_failed h (effects (handleFileChange board h p)) ->
   lastDoneContent (plugin_after (handleFileChange board h p)) =
     lastDoneContent p).
Proof.
  cbv zeta. apply state_update_after_parse.
  - left. reflexivity.
  - reflexivity.
Defined.

(** C3, as the claim words it: the state would be overwritten even when the
    external action fails.  With an empty stored sequence, a text whose
    section holds one link and a host that rejects the command, the read and
    the parse succeed, the dispatch is attempted and fails, and the stored
    sequence is still empty afterwards. *)
Lemma failed_dispatch_keeps_old_state :
  let text := join_LF [str "## Done"; str "[[A]]"] in
  let h := host_with text (inl (HostError (str "osascript: exit 1"))) in
  let p := plugin_watching [] in
  monitored p board /\
  vault_read h board = inr text /\
  extractDoneSection text = [ {| title := str "A" |} ] /\
  dispatches (effects (handleFileChange board h p)) =
    [ {| EventData.title := str "A"; EventData.content := str "A" |} ] /\
  outcome (handleFileChange board h p) = inr tt /\
  lastDoneContent (plugin_after (handleFileChange board h p)) = [] /\
  lastDoneContent (plugin_after (handleFileChange board h p)) <>
    extractDoneSection text.
Proof.
  cbv zeta. split; [left; reflexivity|].
  repeat split; try (vm_compute; reflexivity).
  vm_compute. discriminate.
Qed.

(** ** External action invocation: the claim *)

(** C8. With event data, the script that is handed on is the statement
    [set input to {calendarName:"<label>", summary:"<title>",
    description:"<content>"}], a line feed, and the script body as given;
    label, title and content stand between the quotes exactly as they are.
    [runAppleScript] executes one command, which wraps that script.  For the
    body [say input], the payload Buy milk / Buy milk and the label Logs this
    is the script of the example. *)
Theorem composed_script_with_payload
    (h : Host) (p : Plugin) (script : jsstring) (d : EventData.t) :
  composeScript (settings p) script (Some d) =
    str "set input to {calendarName:" ++ dquote
    ++ calendarName (settings p) ++ dquote
    ++ str ", summary:" ++ dquote ++ EventData.title d ++ dquote
    ++ str ", description:" ++ dquote ++ EventData.content d ++ dquote
    ++ str "}" ++ [LF] ++ script
  /\
  executed (effects (runAppleScript script (Some d) h p)) =
    [ str "osascript -e '" ++ composeScript (settings p) script (Some d)
      ++ str "'" ]
  /\
  composeScript DEFAULT_SETTINGS (str "say input")
    (Some {| EventData.title := str "Buy milk";
             EventData.content := str "Buy milk" |}) =
    str "set input to {calendarName:" ++ dquote ++ str "Logs" ++ dquote
    ++ str ", summary:" ++ dquote ++ str "Buy milk" ++ dquote
    ++ str ", description:" ++ dquote ++ str "Buy milk" ++ dquote
    ++ str "}" ++ [LF] ++ str "say input".
Proof.
  split; [|split].
  - unfold composeScript, template. cbn [List.map chunk_text concat].
    rewrite !app_nil_r, <- !app_assoc. reflexivity.
  - unfold runAppleScript, bind, emit, get_settings, try_catch,
      await_exec, console_error, emit, throw, ret, osascript_command, template.
    cbv beta. cbn [List.map chunk_text concat]. rewrite app_nil_r.
    destruct (execAsync h _); reflexivity.
  - vm_compute. reflexivity.
Qed.

(** Without event data the script is handed on as it is. *)
Lemma composed_script_without_payload
    (st : AppleScriptPluginSettings) (script : jsstring) :
  composeScript st script None = script.
Proof. reflexivity. Qed.

(** * Further properties of the code *)

(** ** The handler, run after run *)

Section Runs.
Implicit Types (file : TFile) (h : Host) (p : Plugin) (text : jsstring).

(** What the handler dispatches for a sequence [doneData] when [seen] is
    stored: the payload of the last element if the sequence is longer. *)
Lemma last_element_payload (doneData : list TaskRecord) :
  option_list (payload_of <$> last_element doneData) =
  option_list (payload_of <$> list.last doneData).
Proof. now rewrite last_element_last. Qed.

(** Every run is of one of four kinds. *)
Lemma run_cases file h p :
  (~ monitored p file /\ handleFileChange file h p = (inr tt, p, []))
  \/ (exists e, monitored p file /\ vault_read h file = inl e /\
        handleFileChange file h p =
          (inr tt, p,
           [VaultRead file;
            ConsoleError (str "Error processing file change:") e]))
  \/ (exists text, monitored p file /\ vault_read h file = inr text /\
        (length (extractDoneSection text) <= length (lastDoneContent p))%nat /\
        handleFileChange file h p =
          (inr tt,
           {| settings := settings p;
              lastDoneContent := extractDoneSection text |},
           [VaultRead file]))
  \/ (exists text latest, monitored p file /\ vault_read h file = inr text /\
        (length (lastDoneContent p) < length (extractDoneSection text))%nat /\
        last_element (extractDoneSection text) = Some latest /\
        handleFileChange file h p =
          match execAsync h (dispatch_command p (payload_of latest)) with
          | inr _ =>
              (inr tt,
               {| settings := settings p;
                  lastDoneContent := extractDoneSection text |},
               [VaultRead file;
                Invoke (defaultScript (settings p)) (Some (payload_of latest));
                Exec (dispatch_command p (payload_of latest))])
          | inl e =>
              (inr tt, p,
               [VaultRead file;
                Invoke (defaultScript (settings p)) (Some (payload_of latest));
                Exec (dispatch_command p (payload_of latest));
                ConsoleError (str "Error executing AppleScript:") e;
                ConsoleError (str "Error processing file change:") e])
          end).
Proof.
  destruct (array_includes (targetFiles (settings p)) (path file)) eqn:Hinc.
  - apply array_includes_In in Hinc. right.
    destruct (vault_read h file) as [e|text] eqn:Hr.
    + left. exists e. repeat split; try assumption.
      now apply run_read_failed.
    + right.
      destruct (Nat.lt_ge_cases (length (lastDoneContent p))
                  (length (extractDoneSection text))) as [Hlt|Hle].
      * right. destruct (last_element_growth _ _ Hlt) as [latest Hlast].
        exists text, latest. repeat split; try assumption.
        now apply run_growth.
      * left. exists text. repeat split; try assumption.
        now apply run_no_growth.
  - left. assert (Hn : ~ monitored p file).
    { intros Hm. apply array_includes_In in Hm. congruence. }
    split; [assumption | now apply run_unmonitored].
Qed.

(** The dispatches of a run on a target file that could be read. *)
Lemma run_dispatches file h p text :
  monitored p file -> vault_read h file = inr text ->
  dispatches (effects (handleFileChange file h p)) =
    if (length (lastDoneContent p) <? length (extractDoneSection text))%nat
    then option_list (payload_of <$> list.last (extractDoneSection text))
    else [].
Proof.
  intros Hm Hr.
  destruct (Nat.lt_ge_cases (length (lastDoneContent p))
              (length (extractDoneSection text))) as [Hlt|Hle].
  - destruct (last_element_growth _ _ Hlt) as [latest Hlast].
    rewrite (run_growth file h p text latest Hm Hr Hlt Hlast).
    rewrite (proj2 (Nat.ltb_lt _ _) Hlt), <- last_element_payload, Hlast.
    cbv zeta. destruct (execAsync h _); reflexivity.
  - rewrite (run_no_growth file h p text Hm Hr Hle).
    rewrite (proj2 (Nat.ltb_ge _ _) Hle). reflexivity.
Qed.

(** The instance after a run in which no command was rejected. *)
Lemma run_success_state file h p text :
  monitored p file -> vault_read h file = inr text ->
  ~ action_failed h (effects (handleFileChange file h p)) ->
  plugin_after (handleFileChange file h p) =
    {| settings := settings p; lastDoneContent := extractDoneSection text |}.
Proof.
  intros Hm Hr Hok.
  destruct (Nat.lt_ge_cases (length (lastDoneContent p))
              (length (extractDoneSection text))) as [Hlt|Hle].
  - destruct (last_element_growth _ _ Hlt) as [latest Hlast].
    rewrite (run_growth file h p text latest Hm Hr Hlt Hlast) in Hok |- *.
    cbv zeta in Hok |- *.
    destruct (execAsync h (dispatch_command p (payload_of latest)))
      as [e|out] eqn:He; [|reflexivity].
    exfalso. apply Hok. exists (dispatch_command p (payload_of latest)), e.
    split; [left; reflexivity | exact He].
  - now rewrite (run_no_growth file h p text Hm Hr Hle).
Qed.

(** The instance after a run in which the command was rejected. *)
Lemma run_failure_state file h p text :
  monitored p file -> vault_read h file = inr text ->
  action_failed h (effects (handleFileChange file h p)) ->
  plugin_after (handleFileChange file h p) = p /\
  (length (lastDoneContent p) < length (extractDoneSection text))%nat.
Proof.
  intros Hm Hr Hf.
  destruct (Nat.lt_ge_cases (length (lastDoneContent p))
              (length (extractDoneSection text))) as [Hlt|Hle].
  - split; [|assumption].
    destruct (last_element_growth _ _ Hlt) as [latest Hlast].
    rewrite (run_growth file h p text latest Hm Hr Hlt Hlast) in Hf |- *.
    cbv zeta in Hf |- *.
    destruct (execAsync h (dispatch_command p (payload_of latest)))
      as [e|out] eqn:He; [reflexivity|].
    destruct Hf as (cmd & e & Hin & Hfail). simpl in Hin.
    destruct Hin as [<-|[]]. congruence.
  - rewrite (run_no_growth file h p text Hm Hr Hle) in Hf.
    destruct Hf as (cmd & e & [] & _).
Qed.

End Runs.

(** X1. Whatever the file, the host and the instance, the handler returns
    normally, leaves the settings as they are, reads at most one file, calls
    [runAppleScript] at most once and executes at most one command, and the
    stored sequence afterwards is either the old one or the one extracted
    from the text just read. *)
Theorem handler_contains_every_failure (file : TFile) (h : Host) (p : Plugin) :
  outcome (handleFileChange file h p) = inr tt /\
  settings (plugin_after (handleFileChange file h p)) = settings p /\
  (length (reads (effects (handleFileChange file h p))) <= 1)%nat /\
  (length (dispatches (effects (handleFileChange file h p))) <= 1)%nat /\
  (length (executed (effects (handleFileChange file h p))) <= 1)%nat /\
  (lastDoneContent (plugin_after (handleFileChange file h p)) =
     lastDoneContent p \/
   exists text, vault_read h file = inr text /\
     lastDoneContent (plugin_after (handleFileChange file h p)) =
       extractDoneSection text).
Proof.
  destruct (run_cases file h p)
    as [[_ ->]|[(e & _ & _ & ->)|[(text & _ & Hr & _ & ->)
       |(text & latest & _ & Hr & _ & _ & ->)]]].
  - repeat split; simpl; auto.
  - repeat split; simpl; auto.
  - repeat split; simpl; eauto.
  - destruct (execAsync h _); repeat split; simpl; eauto.
Qed.

(** X2. Two runs in a row, on any two target files: when the first run
    could read its file and no command of it was rejected, the second run
    dispatches by comparing with the first run's sequence alone, whichever
    file that came from: the last task of the second text if that text's
    sequence is longer, and nothing otherwise. *)
Theorem second_run_compares_with_last_parse
    (f1 f2 : TFile) (h1 h2 : Host) (p : Plugin) (t1 t2 : jsstring) :
  monitored p f1 -> vault_read h1 f1 = inr t1 ->
  ~ action_failed h1 (effects (handleFileChange f1 h1 p)) ->
  monitored p f2 -> vault_read h2 f2 = inr t2 ->
  dispatches
    (effects (handleFileChange f2 h2 (plugin_after (handleFileChange f1 h1 p))))
  = if (length (extractDoneSection t1) <? length (extractDoneSection t2))%nat
    then option_list (payload_of <$> list.last (extractDoneSection t2))
    else [].
Proof.
  intros Hm1 Hr1 Hok Hm2 Hr2.
  rewrite (run_success_state f1 h1 p t1 Hm1 Hr1 Hok).
  now rewrite (run_dispatches f2 h2 _ t2) by assumption.
Qed.

Lemma second_run_compares_with_last_parse_witness :
  let other := {| path := str "Other.md" |} in
  let p :=
    {| settings :=
         {| defaultScript := str "say input";
            enableDoneHeadingTrigger := true;
            targetFiles := [str "Board.md"; str "Other.md"];
            calendarName := str "Logs" |};
       lastDoneContent := [ {| title := str "A" |} ] |} in
  let h1 := host_with (str "no section here") (inr []) in
  let h2 := host_with (join_LF [str "## Done"; str "[[A]]"]) (inr []) in
  dispatches
    (effects (handleFileChange board h2
                (plugin_after (handleFileChange other h1 p))))
  = [ {| EventData.title := str "A"; EventData.content := str "A" |} ].
Proof.
  cbv zeta.
  refine (second_run_compares_with_last_parse _ _ _ _ _
            (str "no section here") (join_LF [str "## Done"; str "[[A]]"])
            _ _ _ _ _).
  - right. left. reflexivity.
  - reflexivity.
  - intros (cmd & e & Hin & _). vm_compute in Hin. exact Hin.
  - left. reflexivity.
  - reflexivity.
Defined.

(** X3. A change that leaves the text as it was dispatches nothing: after a
    run on a target file in which no command was rejected, a second run that
    reads the same text only reads the file and leaves the instance as the
    first run left it. *)
Theorem unchanged_text_dispatches_nothing
    (file : TFile) (h1 h2 : Host) (p : Plugin) (text : jsstring) :
  monitored p file ->
  vault_read h1 file = inr text ->
  ~ action_failed h1 (effects (handleFileChange file h1 p)) ->
  vault_read h2 file = inr text ->
  handleFileChange file h2 (plugin_after (handleFileChange file h1 p)) =
    (inr tt, plugin_after (handleFileChange file h1 p), [VaultRead file]).
Proof.
  intros Hm Hr1 Hok Hr2.
  rewrite (run_success_state file h1 p text Hm Hr1 Hok).
  now rewrite (run_no_growth file h2 _ text) by (assumption || simpl; lia).
Qed.

Lemma unchanged_text_dispatches_nothing_witness :
  let text := join_LF [str "## Done"; str "[[A]]"; str "[[B]]"] in
  let h := host_with text (inr []) in
  let p := plugin_watching [] in
  handleFileChange board h (plugin_after (handleFileChange board h p)) =
    (inr tt, plugin_after (handleFileChange board h p), [VaultRead board]).
Proof.
  cbv zeta.
  refine (unchanged_text_dispatches_nothing _ _ _ _
            (join_LF [str "## Done"; str "[[A]]"; str "[[B]]"]) _ _ _ _).
  - left. reflexivity.
  - reflexivity.
  - intros (cmd & e & Hin & He). vm_compute in He. discriminate.
  - reflexivity.
Defined.

(** X4. A dispatch whose command is rejected is tried again at the next
    change: the failed run leaves the whole instance as it was, so a further
    run that reads the same text dispatches the last task once more. *)
Theorem failed_dispatch_is_retried
    (file : TFile) (h1 h2 : Host) (p : Plugin) (text : jsstring) :
  monitored p file ->
  vault_read h1 file = inr text ->
  action_failed h1 (effects (handleFileChange file h1 p)) ->
  vault_read h2 file = inr text ->
  plugin_after (handleFileChange file h1 p) = p /\
  exists latest : TaskRecord,
    list.last (extractDoneSection text) = Some latest /\
    dispatches (effects (handleFileChange file h1 p)) = [payload_of latest] /\
    dispatches
      (effects (handleFileChange file h2
                  (plugin_after (handleFileChange file h1 p))))
    = [payload_of latest].
Proof.
  intros Hm Hr1 Hf Hr2.
  destruct (run_failure_state file h1 p text Hm Hr1 Hf) as [Hp Hlt].
  split; [exact Hp|]. rewrite Hp.
  destruct (last_element_growth _ _ Hlt) as [latest Hlast].
  exists latest. rewrite <- last_element_last. split; [exact Hlast|].
  rewrite !(run_dispatches _ _ p text) by assumption.
  rewrite (proj2 (Nat.ltb_lt _ _) Hlt), <- last_element_payload, Hlast.
  split; reflexivity.
Qed.

Lemma failed_dispatch_is_retried_witness :
  let text := join_LF [str "## Done"; str "[[A]]"] in
  let h1 := host_with text (inl (HostError (str "exit 1"))) in
  let h2 := host_with text (inr []) in
  let p := plugin_watching [] in
  plugin_after (handleFileChange board h1 p) = p /\
  exists latest : TaskRecord,
    list.last (extractDoneSection text) = Some latest /\
    dispatches (effects (handleFileChange board h1 p)) = [payload_of latest] /\
    dispatches
      (effects (handleFileChange board h2
                  (plugin_after (handleFileChange board h1 p))))
    = [payload_of latest].
Proof.
  cbv zeta. apply failed_dispatch_is_retried.
  - left. reflexivity.
  - reflexivity.
  - exists (dispatch_command (plugin_watching [])
              (payload_of {| title := str "A" |})), (HostError (str "exit 1")).
    split; [left; reflexivity | reflexivity].
  - reflexivity.
Defined.

(** ** The external action, on its own *)

(** X6. [runAppleScript] executes exactly one command, the composed script
    between single quotes after [osascript -e], and its completion is that
    of the command: the output when it resolves, the same error, thrown
    again after one console message, when it is rejected.  The instance is
    not touched. *)
Theorem runAppleScript_completes_as_command
    (script : jsstring) (eventData : option EventData.t) (h : Host) (p : Plugin) :
  let command :=
    str "osascript -e '" ++ composeScript (settings p) script eventData
    ++ str "'" in
  outcome (runAppleScript script eventData h p) = execAsync h command /\
  plugin_after (runAppleScript script eventData h p) = p /\
  effects (runAppleScript script eventData h p) =
    Invoke script eventData :: Exec command ::
    match execAsync h command with
    | inl e => [ConsoleError (str "Error executing AppleScript:") e]
    | inr _ => []
    end.
Proof.
  cbv zeta.
  unfold runAppleScript, bind, emit, get_settings, try_catch,
    await_exec, console_error, emit, throw, ret, osascript_command, template.
  cbv beta. cbn [List.map chunk_text concat]. rewrite app_nil_r.
  destruct (execAsync h _); repeat split; reflexivity.
Qed.

(** X7. The command [run-applescript] executes the default script as it is,
    with no [set input] statement in front, and dispatches nothing.  Unlike
    the change handler it does not contain a failure: a rejected command is
    thrown on to the caller.  The instance is not touched. *)
Theorem run_command_passes_failure_on (h : Host) (p : Plugin) :
  let command := str "osascript -e '" ++ defaultScript (settings p) ++ str "'" in
  executed (effects (run_command h p)) = [command] /\
  dispatches (effects (run_command h p)) = [] /\
  plugin_after (run_command h p) = p /\
  outcome (run_command h p) =
    match execAsync h command with
    | inl e => inl e
    | inr _ => inr tt
    end.
Proof.
  cbv zeta.
  unfold run_command, runAppleScript, bind, emit, get_settings, try_catch,
    await_exec, console_error, emit, throw, ret, osascript_command, template,
    composeScript.
  cbv beta. cbn [List.map chunk_text concat]. rewrite app_nil_r.
  destruct (execAsync h _); repeat split; reflexivity.
Qed.

(** X8. Nothing is escaped, so the composed script does not tell its fields
    apart: a title that holds a quote, [, description:] and a quote yields
    the very script of a shorter title with the rest moved into the
    content.  Two different payloads, one script. *)
Theorem composed_script_confuses_fields
    (st : AppleScriptPluginSettings) (script x y z : jsstring) :
  let sep := dquote ++ str ", description:" ++ dquote in
  let d1 := {| EventData.title := x ++ sep ++ y; EventData.content := z |} in
  let d2 := {| EventData.title := x; EventData.content := y ++ sep ++ z |} in
  composeScript st script (Some d1) = composeScript st script (Some d2) /\
  d1 <> d2.
Proof.
  cbv zeta. split.
  - unfold composeScript, template. cbn [List.map chunk_text concat].
    cbn [EventData.title EventData.content].
    rewrite !app_nil_r, <- !app_assoc. reflexivity.
  - intros Heq. injection Heq as Ht _.
    apply (f_equal (@length N)) in Ht. rewrite !length_app in Ht.
    simpl in Ht. lia.
Qed.

(** ** The pattern and the titles *)

Section PatternFacts.
Implicit Types (s p t g : jsstring) (c : N).

Lemma startsWith_prefix s p :
  startsWith s p = true <-> exists rest, s = p ++ rest.
Proof.
  revert s. induction p as [|a p IH]; intros s.
  - simpl. split; eauto.
  - destruct s as [|b s]; simpl.
    + split; [discriminate | intros [rest Hr]; discriminate].
    + rewrite andb_true_iff, N.eqb_eq, IH. split.
      * intros [-> [rest ->]]. eauto.
      * intros [rest Hr]. injection Hr as -> ->. eauto.
Qed.

Lemma lazy_group_sound s g :
  lazy_group s = Some g ->
  Forall (fun c => isLineTerminator c = false) g /\
  exists rest, s = g ++ str "]]" ++ rest.
Proof.
  revert g. induction s as [|c s IH]; intros g H.
  - simpl in H. discriminate.
  - cbn [lazy_group] in H.
    destruct (startsWith (c :: s) (str "]]")) eqn:Hs.
    + injection H as <-. split; [constructor|].
      apply startsWith_prefix in Hs. exact Hs.
    + destruct (isLineTerminator c) eqn:Hc; [discriminate|].
      destruct (lazy_group s) as [g'|]; [|discriminate].
      injection H as <-. destruct (IH g' eq_refl) as [Hg [rest ->]].
      split; [now constructor | now exists rest].
Qed.

Lemma lazy_group_complete t rest :
  Forall (fun c => isLineTerminator c = false) t ->
  is_Some (lazy_group (t ++ str "]]" ++ rest)).
Proof.
  induction 1 as [|c t Hc _ IH].
  - change ([] ++ str "]]" ++ rest) with (93 :: 93 :: rest). simpl. eauto.
  - change ((c :: t) ++ str "]]" ++ rest) with (c :: (t ++ str "]]" ++ rest)).
    cbn [lazy_group].
    destruct (startsWith (c :: t ++ str "]]" ++ rest) (str "]]")); [eauto|].
    rewrite Hc. destruct IH as [g ->]. simpl. eauto.
Qed.

Lemma match_here_sound s g :
  match_here s = Some g ->
  Forall (fun c => isLineTerminator c = false) g /\
  exists rest, s = str "[[" ++ g ++ str "]]" ++ rest.
Proof.
  unfold match_here. destruct (startsWith s (str "[[")) eqn:Hs; [|discriminate].
  apply startsWith_prefix in Hs as [x ->].
  change (drop 2 (str "[[" ++ x)) with x. intros H.
  apply lazy_group_sound in H as [Hg [rest ->]]. eauto.
Qed.

Lemma match_wikilink_sound s g :
  match_wikilink s = Some g ->
  Forall (fun c => isLineTerminator c = false) g /\
  exists p rest, s = p ++ str "[[" ++ g ++ str "]]" ++ rest.
Proof.
  induction s as [|c s IH]; cbn [match_wikilink].
  - destruct (match_here []) eqn:Hh; [|discriminate].
    intros H. injection H as ->.
    apply match_here_sound in Hh as [Hg [rest Hr]].
    split; [assumption | now exists [], rest].
  - destruct (match_here (c :: s)) eqn:Hh.
    + intros H. injection H as ->.
      apply match_here_sound in Hh as [Hg [rest Hr]].
      split; [assumption | now exists [], rest].
    + intros H. destruct (IH H) as [Hg (p & rest & ->)].
      split; [assumption | now exists (c :: p), rest].
Qed.

Lemma match_wikilink_complete p t rest :
  Forall (fun c => isLineTerminator c = false) t ->
  is_Some (match_wikilink (p ++ str "[[" ++ t ++ str "]]" ++ rest)).
Proof.
  intros Ht. induction p as [|c p IH].
  - change ([] ++ str "[[" ++ t ++ str "]]" ++ rest)
      with (91 :: 91 :: (t ++ str "]]" ++ rest)).
    destruct (lazy_group_complete t rest Ht) as [g Hg].
    assert (Hh : match_here (91 :: 91 :: (t ++ str "]]" ++ rest)) = Some g)
      by exact Hg.
    cbn [match_wikilink]. rewrite Hh. eauto.
  - change ((c :: p) ++ str "[[" ++ t ++ str "]]" ++ rest)
      with (c :: (p ++ str "[[" ++ t ++ str "]]" ++ rest)).
    cbn [match_wikilink]. destruct (match_here _); [eauto | exact IH].
Qed.

(** Trimming. *)
Lemma trimStart_Forall (P : N -> Prop) s : Forall P s -> Forall P (trimStart s).
Proof.
  induction 1 as [|c s Hc Hs IH]; simpl; [constructor|].
  destruct (isTrimmable c); [assumption | now constructor].
Qed.

Lemma trim_Forall (P : N -> Prop) s : Forall P s -> Forall P (trim s).
Proof.
  intros H. unfold trim, trimEnd.
  apply Forall_rev, trimStart_Forall, Forall_rev, trimStart_Forall, H.
Qed.

Lemma trimStart_idemp s : trimStart (trimStart s) = trimStart s.
Proof.
  induction s as [|c s IH]; [reflexivity|].
  simpl. destruct (isTrimmable c) eqn:Hc; [assumption|].
  simpl. now rewrite Hc.
Qed.

Lemma trimStart_snoc s c :
  isTrimmable c = false -> trimStart (s ++ [c]) = trimStart s ++ [c].
Proof.
  intros Hc. induction s as [|a s IH]; simpl.
  - now rewrite Hc.
  - destruct (isTrimmable a); [assumption | reflexivity].
Qed.

(** Trimming the end keeps a start that is already trimmed. *)
Lemma trimStart_trimEnd s :
  trimStart s = s -> trimStart (trimEnd s) = trimEnd s.
Proof.
  destruct s as [|c s]; [reflexivity|].
  simpl. destruct (isTrimmable c) eqn:Hc.
  - intros H. apply (f_equal (@length N)) in H.
    assert (Hlen : forall u : jsstring, (length (trimStart u) <= length u)%nat).
    { induction u as [|a u IHu]; simpl; [lia|].
      destruct (isTrimmable a); simpl; lia. }
    specialize (Hlen s). simpl in H. lia.
  - intros _. unfold trimEnd. cbn [rev].
    rewrite trimStart_snoc by assumption.
    rewrite rev_app_distr. simpl. now rewrite Hc.
Qed.

Lemma trim_idemp s : trim (trim s) = trim s.
Proof.
  unfold trim.
  rewrite (trimStart_trimEnd (trimStart s)) by apply trimStart_idemp.
  unfold trimEnd. rewrite rev_involutive, trimStart_idemp. reflexivity.
Qed.

End PatternFacts.

Lemma for_of_clean (lines : list jsstring) (s : LoopState) :
  Forall clean_title (tasks s) ->
  Forall clean_title (tasks (state_of (for_of lines s))).
Proof.
  revert s. induction lines as [|line lines IH]; intros s Hs; [exact Hs|].
  cbn [for_of]. unfold loop_body.
  destruct (bool_decide (trim line = DONE_MARKER)); [now apply IH|].
  destruct (isDoneSection s && startsWith line HEADING_PREFIX); [exact Hs|].
  destruct (isDoneSection s && includes line (str "[[")); [|now apply IH].
  destruct (match_wikilink line) as [g|] eqn:Hm; [|now apply IH].
  apply IH. cbn [tasks]. apply Forall_app. split; [exact Hs|].
  constructor; [|constructor]. split; cbn [title].
  - apply trim_idemp.
  - apply trim_Forall. now apply match_wikilink_sound in Hm as [Hg _].
Qed.

(** X9. A line adds a task exactly when it holds an opening [[[], later a
    closing []]], and no line terminator (a carriage return, say) between
    the two; the title is then the trimmed text between one such pair. *)
Theorem line_task_iff_closed_link (line : jsstring) :
  (is_Some (line_task line) <->
   exists p t rest : jsstring,
     line = p ++ str "[[" ++ t ++ str "]]" ++ rest /\
     Forall (fun c => isLineTerminator c = false) t) /\
  (forall r : TaskRecord,
     line_task line = Some r ->
     exists p t rest : jsstring,
       line = p ++ str "[[" ++ t ++ str "]]" ++ rest /\
       Forall (fun c => isLineTerminator c = false) t /\
       title r = trim t).
Proof.
  assert (Hsound : forall r, line_task line = Some r ->
            exists p t rest, line = p ++ str "[[" ++ t ++ str "]]" ++ rest /\
              Forall (fun c => isLineTerminator c = false) t /\
              title r = trim t).
  { intros r. unfold line_task.
    destruct (includes line (str "[[")); [|discriminate].
    destruct (match_wikilink line) as [g|] eqn:Hm; [|discriminate].
    intros H. injection H as <-.
    apply match_wikilink_sound in Hm as [Hg (p & rest & ->)].
    exists p, g, rest. auto. }
  split; [|exact Hsound]. split.
  - intros [r Hr]. destruct (Hsound r Hr) as (p & t & rest & H1 & H2 & _).
    eauto.
  - intros (p & t & rest & -> & Ht). unfold line_task.
    rewrite includes_app_r by reflexivity.
    destruct (match_wikilink_complete p t rest Ht) as [g ->]. simpl. eauto.
Qed.

(** X10. Every title that the extractor returns is trimmed, so that it
    neither starts nor ends with white space, and holds no line terminator:
    the statement composed from it stays on one line. *)
Theorem extracted_titles_are_clean (text : jsstring) :
  Forall clean_title (extractDoneSection text).
Proof.
  unfold extractDoneSection. cbn zeta. apply for_of_clean. constructor.
Qed.

(** ** Line endings *)

Section CarriageReturn.
Implicit Types (s p : jsstring).

Lemma startsWith_snoc_CR p s :
  forallb (fun a => negb (a =? CR)) p = true ->
  startsWith (s ++ [CR]) p = startsWith s p.
Proof.
  revert s. induction p as [|a p IH]; intros s Hp; [reflexivity|].
  cbn [forallb] in Hp. apply andb_true_iff in Hp as [Ha Hp].
  destruct s as [|b s]; simpl.
  - apply negb_true_iff in Ha. rewrite Ha. reflexivity.
  - rewrite IH by assumption. reflexivity.
Qed.

Lemma includes_snoc_CR a p s :
  forallb (fun a => negb (a =? CR)) (a :: p) = true ->
  includes (s ++ [CR]) (a :: p) = includes s (a :: p).
Proof.
  intros Hp. induction s as [|b s IH].
  - cbn [forallb] in Hp. apply andb_true_iff in Hp as [Ha _].
    apply negb_true_iff in Ha. simpl. rewrite Ha. reflexivity.
  - change ((b :: s) ++ [CR]) with (b :: (s ++ [CR])).
    cbn [includes]. rewrite IH. f_equal.
    exact (startsWith_snoc_CR (a :: p) (b :: s) Hp).
Qed.

Lemma lazy_group_snoc_CR s : lazy_group (s ++ [CR]) = lazy_group s.
Proof.
  induction s as [|c s IH]; [reflexivity|].
  change ((c :: s) ++ [CR]) with (c :: (s ++ [CR])).
  cbn [lazy_group]. rewrite IH.
  pose proof (startsWith_snoc_CR (str "]]") (c :: s) eq_refl) as E.
  cbn [app] in E. now rewrite E.
Qed.

Lemma match_here_snoc_CR s : match_here (s ++ [CR]) = match_here s.
Proof.
  unfold match_here. rewrite (startsWith_snoc_CR (str "[[") s) by reflexivity.
  destruct (startsWith s (str "[[")) eqn:Hs; [|reflexivity].
  apply startsWith_prefix in Hs as [x ->].
  change (drop 2 ((str "[[" ++ x) ++ [CR])) with (x ++ [CR]).
  change (drop 2 (str "[[" ++ x)) with x. apply lazy_group_snoc_CR.
Qed.

Lemma match_wikilink_snoc_CR s : match_wikilink (s ++ [CR]) = match_wikilink s.
Proof.
  induction s as [|c s IH]; [reflexivity|].
  change ((c :: s) ++ [CR]) with (c :: (s ++ [CR])).
  cbn [match_wikilink].
  change (c :: (s ++ [CR])) with ((c :: s) ++ [CR]).
  now rewrite match_here_snoc_CR, IH.
Qed.

Lemma trimStart_snoc_trimmable s c :
  isTrimmable c = true ->
  trimStart (s ++ [c]) =
    match trimStart s with [] => [] | _ :: _ => trimStart s ++ [c] end.
Proof.
  intros Hc. induction s as [|a s IH]; simpl.
  - now rewrite Hc.
  - destruct (isTrimmable a); [assumption | reflexivity].
Qed.

Lemma trim_snoc_CR s : trim (s ++ [CR]) = trim s.
Proof.
  unfold trim, trimEnd. rewrite trimStart_snoc_trimmable by reflexivity.
  destruct (trimStart s) as [|a u]; [reflexivity|].
  rewrite rev_app_distr. reflexivity.
Qed.

Lemma loop_body_same_up_to_CR l l' (st : LoopState) :
  same_up_to_CR l l' -> loop_body l' st = loop_body l st.
Proof.
  intros [->| ->]; [reflexivity|]. unfold loop_body.
  rewrite trim_snoc_CR, match_wikilink_snoc_CR.
  rewrite (startsWith_snoc_CR HEADING_PREFIX l) by reflexivity.
  pose proof (includes_snoc_CR 91 [91] l eq_refl) as E.
  change [91; 91] with (str "[[") in E. now rewrite E.
Qed.

Lemma for_of_same_up_to_CR ls ls' (st : LoopState) :
  Forall2 same_up_to_CR ls ls' -> for_of ls' st = for_of ls st.
Proof.
  intros H. revert st. induction H as [|l l' ls ls' Hl _ IH]; intros st.
  - reflexivity.
  - cbn [for_of]. rewrite (loop_body_same_up_to_CR l l' st Hl).
    destruct (loop_body l st); auto.
Qed.

End CarriageReturn.

(** X11. Carriage returns at the ends of lines make no difference: two texts
    whose lines are the same up to a carriage return before the line feed
    give the same sequence. *)
Theorem extract_ignores_carriage_returns (text text' : jsstring) :
  Forall2 same_up_to_CR (split_LF text) (split_LF text') ->
  extractDoneSection text' = extractDoneSection text.
Proof.
  intros H. unfold extractDoneSection. cbn zeta.
  now rewrite (for_of_same_up_to_CR _ _ init_state H).
Qed.

Lemma extract_ignores_carriage_returns_witness :
  extractDoneSection
    (str "## Done" ++ [CR; LF] ++ str "- [[A]]" ++ [CR; LF] ++ str "## Next"
     ++ [CR; LF])
  = extractDoneSection
      (str "## Done" ++ [LF] ++ str "- [[A]]" ++ [LF] ++ str "## Next" ++ [LF]).
Proof.
  apply extract_ignores_carriage_returns.
  repeat (constructor; [(left; reflexivity) || (right; reflexivity)|]).
  constructor.
Defined.

(** ** Settings *)

Section SettingsFacts.
Implicit Types (p q : Plugin) (xs : list jsstring) (x v : jsstring) (i j : nat).


Lemma In_lookup xs x : In x xs <-> exists j, xs !! j = Some x.
Proof. rewrite <- list_elem_of_In. apply list_elem_of_lookup. Qed.

Lemma splice1_lookup xs i j :
  array_splice1 xs i !! j = if (j <? i)%nat then xs !! j else xs !! S j.
Proof.
  unfold array_splice1. revert i j. induction xs as [|a xs IH]; intros i j.
  - rewrite take_nil, drop_nil. simpl. now destruct (j <? i)%nat.
  - destruct i as [|i]; [reflexivity|].
    destruct j as [|j]; [reflexivity|].
    change (take (S i) (a :: xs) ++ drop (S (S i)) (a :: xs))
      with (a :: (take i xs ++ drop (S i) xs)).
    change ((a :: (take i xs ++ drop (S i) xs)) !! S j)
      with ((take i xs ++ drop (S i) xs) !! j).
    rewrite IH. reflexivity.
Qed.

Lemma splice1_In xs i x : In x (array_splice1 xs i) -> In x xs.
Proof.
  rewrite !In_lookup. intros [j Hj]. rewrite splice1_lookup in Hj.
  destruct (j <? i)%nat; eauto.
Qed.

Lemma splice1_keeps xs i x :
  In x xs -> xs !! i <> Some x -> In x (array_splice1 xs i).
Proof.
  rewrite !In_lookup. intros [j Hj] Hi.
  destruct (lt_eq_lt_dec j i) as [[Hlt | ->] | Hgt].
  - exists j. rewrite splice1_lookup, (proj2 (Nat.ltb_lt _ _) Hlt). exact Hj.
  - contradiction.
  - destruct j as [|j]; [lia|]. exists j.
    rewrite splice1_lookup, (proj2 (Nat.ltb_ge _ _)) by lia. exact Hj.
Qed.

Lemma splice1_forgets xs i x :
  xs !! i = Some x -> (forall j, j <> i -> xs !! j <> Some x) ->
  ~ In x (array_splice1 xs i).
Proof.
  intros Hi Honly. rewrite In_lookup. intros [j Hj].
  rewrite splice1_lookup in Hj.
  destruct (j <? i)%nat eqn:Hlt.
  - apply Nat.ltb_lt in Hlt. apply (Honly j); [lia | exact Hj].
  - apply Nat.ltb_ge in Hlt. apply (Honly (S j)); [lia | exact Hj].
Qed.

Lemma splice1_beyond xs i : (length xs <= i)%nat -> array_splice1 xs i = xs.
Proof.
  intros H. unfold array_splice1.
  rewrite take_ge, drop_ge by lia. apply app_nil_r.
Qed.

(** A target file is read, whatever comes of it; no other file is. *)
Lemma run_reads (file : TFile) (h : Host) p :
  reads (effects (handleFileChange file h p)) =
    if array_includes (targetFiles (settings p)) (path file) then [file] else [].
Proof.
  destruct (run_cases file h p)
    as [[Hn ->]|[(e & Hm & _ & ->)|[(text & Hm & _ & _ & ->)
       |(text & latest & Hm & _ & _ & _ & ->)]]].
  - now rewrite array_includes_unmonitored.
  - now rewrite array_includes_monitored.
  - now rewrite array_includes_monitored.
  - rewrite array_includes_monitored by assumption.
    destruct (execAsync h _); reflexivity.
Qed.

Lemma run_reads_monitored (file : TFile) (h : Host) p :
  monitored p file -> reads (effects (handleFileChange file h p)) = [file].
Proof. intros Hm. now rewrite run_reads, array_includes_monitored. Qed.

End SettingsFacts.





(** X14. After a file has been chosen in the selector, its changes are
    handled: the handler reads it, whatever the host.  The files that were
    targets before still are, and the list has grown by one entry, also when
    the path was in it already. *)
Theorem chosen_file_is_monitored (f : TFile) (p : Plugin) :
  let p' := fst (onChoose_file (Some f) p) in
  (forall h : Host, reads (effects (handleFileChange f h p')) = [f]) /\
  (forall g : TFile, monitored p g -> monitored p' g) /\
  length (targetFiles (settings p')) = S (length (targetFiles (settings p))).
Proof.
  cbv zeta. repeat split.
  - intros h. apply run_reads_monitored. unfold monitored. simpl.
    apply in_or_app. right. now left.
  - intros g Hg. unfold monitored in *. simpl. apply in_or_app. now left.
  - simpl. rewrite length_app. simpl. lia.
Qed.

(** X15. Removing the row of a path that stands in no other row makes the
    handler ignore that file altogether; files of other paths stay targets.
    A Remove whose index lies beyond the list changes no setting. *)
Theorem removed_target_is_ignored (i : nat) (f : TFile) (p : Plugin) :
  targetFiles (settings p) !! i = Some (path f) ->
  (forall j : nat, j <> i -> targetFiles (settings p) !! j <> Some (path f)) ->
  let p' := fst (onClick_remove i p) in
  (forall h : Host, handleFileChange f h p' = (inr tt, p', [])) /\
  (forall g : TFile, path g <> path f -> (monitored p' g <-> monitored p g)) /\
  (forall k : nat,
     (length (targetFiles (settings p)) <= k)%nat ->
     settings (fst (onClick_remove k p)) = settings p).
Proof.
  intros Hi Honly. cbv zeta. repeat split.
  - intros h. apply run_unmonitored. unfold monitored. simpl.
    now apply splice1_forgets.
  - unfold monitored. simpl. apply splice1_In.
  - unfold monitored. simpl. intros Hg. apply splice1_keeps; [assumption|].
    rewrite Hi. congruence.
  - intros k Hk. simpl. rewrite splice1_beyond by assumption.
    now destruct p as [[] ?].
Qed.

Lemma removed_target_is_ignored_witness :
  let p := plugin_watching [] in
  let p' := fst (onClick_remove 0 p) in
  (forall h : Host, handleFileChange board h p' = (inr tt, p', [])) /\
  (forall g : TFile, path g <> path board -> (monitored p' g <-> monitored p g)) /\
  (forall k : nat,
     (length (targetFiles (settings p)) <= k)%nat ->
     settings (fst (onClick_remove k p)) = settings p).
Proof.
  cbv zeta. apply removed_target_is_ignored.
  - reflexivity.
  - intros [|[|j]] Hj; [contradiction | discriminate | discriminate].
Defined.

(** X16. The selector does not look for duplicates: when a file that is a
    target already is chosen again, removing any one row afterwards leaves
    it a target, and its changes are still handled. *)
Theorem chosen_twice_survives_one_removal (f : TFile) (p : Plugin) (i : nat) :
  monitored p f ->
  let p' := fst (onClick_remove i (fst (onChoose_file (Some f) p))) in
  monitored p' f /\
  forall h : Host, reads (effects (handleFileChange f h p')) = [f].
Proof.
  intros Hm. cbv zeta.
  assert (Hin : monitored (fst (onClick_remove i (fst (onChoose_file (Some f) p)))) f).
  { unfold monitored in *. simpl.
    set (xs := targetFiles (settings p)) in *.
    apply In_lookup in Hm as [j Hj].
    assert (Hlt : (j < length xs)%nat) by (eapply lookup_lt_Some; eassumption).
    apply In_lookup.
    destruct (decide (i = j)) as [->|Hne].
    - exists (length xs - 1)%nat. rewrite splice1_lookup.
      destruct (length xs - 1 <? j)%nat eqn:Hc.
      + apply Nat.ltb_lt in Hc. lia.
      + replace (S (length xs - 1)) with (length xs) by lia.
        rewrite lookup_app_r by lia. now rewrite Nat.sub_diag.
    - destruct (lt_dec j i) as [Hji|Hji].
      + exists j. rewrite splice1_lookup, (proj2 (Nat.ltb_lt _ _) Hji).
        now rewrite lookup_app_l.
      + destruct j as [|j]; [lia|]. exists j.
        rewrite splice1_lookup, (proj2 (Nat.ltb_ge _ _)) by lia.
        now rewrite lookup_app_l. }
  split; [exact Hin|]. intros h. now apply run_reads_monitored.
Qed.

Lemma chosen_twice_survives_one_removal_witness :
  let p' := fst (onClick_remove 0
                   (fst (onChoose_file (Some board) (plugin_watching [])))) in
  monitored p' board /\
  forall h : Host, reads (effects (handleFileChange board h p')) = [board].
Proof.
  cbv zeta. apply chosen_twice_survives_one_removal. left. reflexivity.
Defined.

(** X17. Editing the text field of a row renames that target: when the old
    path stands in no other row and the new one differs from it, changes of
    the old file are ignored from then on, changes of the new one are
    handled, and files of other paths are targets exactly as before. *)
Theorem edited_target_is_renamed
    (i : nat) (old : TFile) (v : jsstring) (p : Plugin) :
  targetFiles (settings p) !! i = Some (path old) ->
  (forall j : nat, j <> i -> targetFiles (settings p) !! j <> Some (path old)) ->
  v <> path old ->
  exists (p' : Plugin) (saves : list StoredData),
    onChange_targetFile i v p = Some (p', saves) /\
    (forall h : Host, handleFileChange old h p' = (inr tt, p', [])) /\
    (forall h : Host,
       reads (effects (handleFileChange {| path := v |} h p')) =
         [ {| path := v |} ]) /\
    (forall g : TFile,
       path g <> path old -> path g <> v -> (monitored p' g <-> monitored p g)).
Proof.
  intros Hi Honly Hv.
  assert (Hlt : (i < length (targetFiles (settings p)))%nat)
    by (eapply lookup_lt_Some; eassumption).
  unfold onChange_targetFile, array_set.
  rewrite (proj2 (Nat.ltb_lt _ _) Hlt).
  eexists _, _. split; [reflexivity|].
  set (xs := targetFiles (settings p)) in *.
  assert (Hlook : forall x, In x (<[i:=v]> xs) <->
            x = v \/ exists j, j <> i /\ xs !! j = Some x).
  { intros x. rewrite In_lookup. split.
    - intros [j Hj]. destruct (decide (j = i)) as [->|Hne].
      + rewrite list_lookup_insert_eq in Hj by assumption.
        left. congruence.
      + rewrite list_lookup_insert_ne in Hj by congruence. eauto.
    - intros [->|(j & Hne & Hj)].
      + exists i. now apply list_lookup_insert_eq.
      + exists j. now rewrite list_lookup_insert_ne by congruence. }
  repeat split.
  - intros h. apply run_unmonitored. unfold monitored. simpl.
    rewrite Hlook. intros [Heq|(j & Hne & Hj)]; [congruence|].
    exact (Honly j Hne Hj).
  - intros h. apply run_reads_monitored. unfold monitored. simpl.
    apply Hlook. now left.
  - unfold monitored. simpl. rewrite Hlook.
    intros [Heq|(j & _ & Hj)]; [contradiction|]. apply In_lookup. eauto.
  - unfold monitored. simpl. rewrite Hlook. intros Hg.
    apply In_lookup in Hg as [j Hj]. right. exists j. split; [|assumption].
    intros ->. fold xs in Hj. congruence.
Qed.

Lemma edited_target_is_renamed_witness :
  exists (p' : Plugin) (saves : list StoredData),
    onChange_targetFile 0 (str "Kanban.md") (plugin_watching []) =
      Some (p', saves) /\
    (forall h : Host, handleFileChange board h p' = (inr tt, p', [])) /\
    (forall h : Host,
       reads (effects (handleFileChange {| path := str "Kanban.md" |} h p')) =
         [ {| path := str "Kanban.md" |} ]) /\
    (forall g : TFile,
       path g <> path board -> path g <> str "Kanban.md" ->
       (monitored p' g <-> monitored (plugin_watching []) g)).
Proof.
  apply edited_target_is_renamed.
  - reflexivity.
  - intros [|[|j]] Hj; [contradiction | discriminate | discriminate].
  - vm_compute. discriminate.
Defined.
